(** * OpenVoronoi: edge curve parameters and the solver base class

    A shallow embedding of [struct EdgeProps] (voronoidiagram_graph.hpp) and of
    [class Solver] (solvers/solver.hpp).

    - [double] is IEEE binary64, modelled by Rocq's primitive [float];
      arithmetic is written in the order the C++ expressions associate.
    - A member function of [EdgeProps] is a computation over a [Machine]:
      the object it is called on, what has been written to [std::cout], and
      the subscripts applied to the two coefficient arrays.
    - [assert] is the one of a build without [NDEBUG]: a false condition ends
      the run. *)

From Stdlib Require Import Floats ZArith List String Ascii Bool Lia.
Import ListNotations.

Local Open Scope Z_scope.

(** ** Sites and points *)

(** Modelled from the spec: [class Site] is only forward-declared in the
    sources at hand.  The capability surface used by the edge code is the two
    classification predicates, the position of a point site and the implicit
    coefficients of a line site; a site is whatever its virtual member
    functions answer. *)
Module Site.
Record t : Set := mk {
  isPoint : bool;
  isLine : bool;
  x : float;
  y : float;
  a : float;
  b : float;
  c : float
}.

(** The three kinds of site, told apart by the two predicates: a point
    site and a line site answer exactly one of them, an arc site neither. *)
Definition isPointSite (s : t) : bool := isPoint s && negb (isLine s).
Definition isLineSite (s : t) : bool := isLine s && negb (isPoint s).
Definition isArc (s : t) : bool := negb (isPoint s) && negb (isLine s).
End Site.

(** Modelled from the spec: [Point] (point.hpp) is a position in the plane,
    built from its two coordinates. *)
Record Point : Set := mkPoint { px : float; py : float }.

(** ** The edge record *)

Inductive VoronoiEdgeType : Set :=
  LINE | PARABOLA | ELLIPSE | HYPERBOLA | SEPARATOR | LINESITE.

(** [double x[8]]: eight slots.  A subscript outside [0..7] designates no
    slot, so [get] and [set] answer [None] there. *)
Module Coeffs.
Record t : Set := mk {
  c0 : float; c1 : float; c2 : float; c3 : float;
  c4 : float; c5 : float; c6 : float; c7 : float
}.

Definition get (v : t) (i : Z) : option float :=
  match i with
  | 0 => Some (c0 v) | 1 => Some (c1 v) | 2 => Some (c2 v) | 3 => Some (c3 v)
  | 4 => Some (c4 v) | 5 => Some (c5 v) | 6 => Some (c6 v) | 7 => Some (c7 v)
  | _ => None
  end.

Definition set (v : t) (i : Z) (d : float) : option t :=
  match i with
  | 0 => Some (mk d (c1 v) (c2 v) (c3 v) (c4 v) (c5 v) (c6 v) (c7 v))
  | 1 => Some (mk (c0 v) d (c2 v) (c3 v) (c4 v) (c5 v) (c6 v) (c7 v))
  | 2 => Some (mk (c0 v) (c1 v) d (c3 v) (c4 v) (c5 v) (c6 v) (c7 v))
  | 3 => Some (mk (c0 v) (c1 v) (c2 v) d (c4 v) (c5 v) (c6 v) (c7 v))
  | 4 => Some (mk (c0 v) (c1 v) (c2 v) (c3 v) d (c5 v) (c6 v) (c7 v))
  | 5 => Some (mk (c0 v) (c1 v) (c2 v) (c3 v) (c4 v) d (c6 v) (c7 v))
  | 6 => Some (mk (c0 v) (c1 v) (c2 v) (c3 v) (c4 v) (c5 v) d (c7 v))
  | 7 => Some (mk (c0 v) (c1 v) (c2 v) (c3 v) (c4 v) (c5 v) (c6 v) d)
  | _ => None
  end.

Definition in_bounds (i : Z) : bool := (0 <=? i) && (i <? 8).
End Coeffs.

(** Modelled from the spec: the edge descriptor of the graph library is an
    opaque handle, stable across insertions; a face is an [unsigned int]. *)
Definition HEEdge : Set := N.
Definition HEFace : Set := N.

Module EdgeProps.
Record t : Set := mk {
  next : HEEdge;
  twin : HEEdge;
  face : HEFace;
  k : float;
  type : VoronoiEdgeType;
  x : Coeffs.t;
  y : Coeffs.t
}.

(** The constructors set the members they name; every other member keeps
    whatever the storage [raw] held. *)
Definition init (raw : t) : t := raw.
Definition init_next_face (raw : t) (n : HEEdge) (f : HEFace) : t :=
  mk n (twin raw) f (k raw) (type raw) (x raw) (y raw).
Definition init_next_twin_face (raw : t) (n tw : HEEdge) (f : HEFace) : t :=
  mk n tw f (k raw) (type raw) (x raw) (y raw).

Definition with_type (e : t) (ty : VoronoiEdgeType) : t :=
  mk (next e) (twin e) (face e) (k e) ty (x e) (y e).
Definition with_x (e : t) (v : Coeffs.t) : t :=
  mk (next e) (twin e) (face e) (k e) (type e) v (y e).
Definition with_y (e : t) (v : Coeffs.t) : t :=
  mk (next e) (twin e) (face e) (k e) (type e) (x e) v.
End EdgeProps.

(** ** Member functions as computations *)

Inductive Array : Set := ArrX | ArrY.

(** One subscript expression: which array, which index, read or written. *)
Inductive Access : Set :=
| Load (arr : Array) (i : Z)
| Store (arr : Array) (i : Z).

(** One [operator<<] on [std::cout]. *)
Inductive Token : Set :=
| OutStr (s : string)
| OutDouble (d : float).

Record Machine : Set := mkMachine {
  edge : EdgeProps.t;
  cout : list Token;
  accesses : list Access
}.

(** A run either returns to its caller or is ended by a failed [assert]. *)
Inductive Outcome (A : Type) : Type :=
| Returned (v : A) (m : Machine)
| Aborted (m : Machine).
Arguments Returned {A} v m.
Arguments Aborted {A} m.

Definition M (A : Type) : Type := Machine -> Outcome A.

Definition ret {A : Type} (v : A) : M A := fun m => Returned v m.

Definition bind {A B : Type} (c : M A) (f : A -> M B) : M B :=
  fun m =>
    match c m with
    | Returned v m' => f v m'
    | Aborted m' => Aborted m'
    end.

Declare Scope edge_scope.
Delimit Scope edge_scope with edge.
Notation "v <- c ;; f" := (bind c (fun v => f))
  (at level 61, c at next level, right associativity) : edge_scope.
Notation "c ;; f" := (bind c (fun _ => f))
  (at level 61, right associativity) : edge_scope.

Definition array (arr : Array) (e : EdgeProps.t) : Coeffs.t :=
  match arr with ArrX => EdgeProps.x e | ArrY => EdgeProps.y e end.

Definition with_array (arr : Array) (e : EdgeProps.t) (v : Coeffs.t) : EdgeProps.t :=
  match arr with ArrX => EdgeProps.with_x e v | ArrY => EdgeProps.with_y e v end.

Definition note (ac : Access) (m : Machine) : Machine :=
  mkMachine (edge m) (cout m) (accesses m ++ [ac]).

(** [arr[i]] as an rvalue.  The language gives no value to a read outside the
    array; the model records the subscript and answers [nan]. *)
Definition load (arr : Array) (i : Z) : M float :=
  fun m =>
    let m' := note (Load arr i) m in
    match Coeffs.get (array arr (edge m)) i with
    | Some d => Returned d m'
    | None => Returned nan m'
    end.

(** [arr[i] = d].  A store outside the array does not land in any of the
    sixteen slots: the model records the subscript and leaves them as they
    are. *)
Definition store (arr : Array) (i : Z) (d : float) : M unit :=
  fun m =>
    let m' := note (Store arr i) m in
    match Coeffs.set (array arr (edge m)) i d with
    | Some v => Returned tt (mkMachine (with_array arr (edge m) v) (cout m') (accesses m'))
    | None => Returned tt m'
    end.

(** [type = ty;] *)
Definition assign_type (ty : VoronoiEdgeType) : M unit :=
  fun m => Returned tt (mkMachine (EdgeProps.with_type (edge m) ty) (cout m) (accesses m)).

Definition put (tk : Token) : M unit :=
  fun m => Returned tt (mkMachine (edge m) (cout m ++ [tk]) (accesses m)).

Definition assert (cond : bool) : M unit :=
  fun m => if cond then Returned tt m else Aborted m.

(** [for (int m = from; m < bound; m++) body(m)], unrolled at most [fuel]
    times. *)
Fixpoint for_loop (fuel : nat) (from bound : Z) (body : Z -> M unit) : M unit :=
  match fuel with
  | O => ret tt
  | S fuel' =>
      if from <? bound
      then bind (body from) (fun _ => for_loop fuel' (from + 1) bound body)
      else ret tt
  end.

Definition for_lt (from bound : Z) (body : Z -> M unit) : M unit :=
  for_loop (Z.to_nat (bound - from)) from bound body.

Definition nl : string := String (ascii_of_nat 10) EmptyString.

Local Open Scope float_scope.
Local Open Scope edge_scope.

Definition sq (v : float) : float := v * v.

(** [a >= b] and [a != b] on doubles. *)
Definition geb (u v : float) : bool := v <=? u.
Definition neqb (u v : float) : bool := negb (u =? v).

Definition point (t : float) : M Point :=
  x4 <- load ArrX 4 ;; x5 <- load ArrX 5 ;; x6 <- load ArrX 6 ;; x7 <- load ArrX 7 ;;
  let discr1 := sq (x4 + x5 * t) - sq (x6 + x7 * t) in
  y4 <- load ArrY 4 ;; y5 <- load ArrY 5 ;; y6 <- load ArrY 6 ;; y7 <- load ArrY 7 ;;
  let discr2 := sq (y4 + y5 * t) - sq (y6 + y7 * t) in
  if geb discr1 0 && geb discr2 0 then
    x0 <- load ArrX 0 ;; x1 <- load ArrX 1 ;; x2 <- load ArrX 2 ;; x3 <- load ArrX 3 ;;
    x4 <- load ArrX 4 ;; x5 <- load ArrX 5 ;; x6 <- load ArrX 6 ;; x7 <- load ArrX 7 ;;
    let xc := x0 - x1 - x2 * t + x3 * sqrt (sq (x4 + x5 * t) - sq (x6 + x7 * t)) in
    y0 <- load ArrY 0 ;; y1 <- load ArrY 1 ;; y2 <- load ArrY 2 ;; y3 <- load ArrY 3 ;;
    y4 <- load ArrY 4 ;; y5 <- load ArrY 5 ;; y6 <- load ArrY 6 ;; y7 <- load ArrY 7 ;;
    let yc := y0 - y1 - y2 * t + y3 * sqrt (sq (y4 + y5 * t) - sq (y6 + y7 * t)) in
    ret (mkPoint xc yc)
  else
    put (OutStr (" warning bisector sqrt(-1) !" ++ nl)) ;;
    ret (mkPoint 0 0).

Definition print_params : M unit :=
  put (OutStr "x-params: ") ;;
  for_lt 0 8 (fun m => d <- load ArrX m ;; put (OutDouble d) ;; put (OutStr " ")) ;;
  put (OutStr nl) ;;
  put (OutStr "y-params: ") ;;
  for_lt 0 8 (fun m => d <- load ArrY m ;; put (OutDouble d) ;; put (OutStr " ")) ;;
  put (OutStr nl).

(** called for point(s1)-point(s2) edges *)
Definition set_pp_parameters (s1 s2 : Site.t) : M unit :=
  put (OutStr (" set_pp " ++ nl)) ;;
  assign_type LINE.

(** called for point(s1)-line(s2) edges *)
Definition set_pl_parameters (s1 s2 : Site.t) : M unit :=
  put (OutStr (" set_pl " ++ nl)) ;;
  assign_type PARABOLA ;;
  let alfa3 := Site.a s2 * Site.x s1 + Site.b s2 * Site.y s1 + Site.c s2 in
  store ArrX 0 (Site.x s1) ;;
  store ArrX 1 (Site.a s2 * alfa3) ;;
  store ArrX 2 (- Site.a s2) ;;
  store ArrX 3 (Site.b s2) ;;
  store ArrX 4 0 ;;
  store ArrX 5 1 ;;
  store ArrX 6 alfa3 ;;
  store ArrX 7 (-1) ;;
  store ArrY 0 (Site.y s1) ;;
  store ArrY 1 (Site.b s2 * alfa3) ;;
  store ArrY 2 (- Site.b s2) ;;
  store ArrY 3 (Site.a s2) ;;
  store ArrY 4 0 ;;
  store ArrY 5 1 ;;
  store ArrY 6 alfa3 ;;
  store ArrY 7 (-1) ;;
  print_params.

(** line(s1)-line(s2) edge *)
Definition set_ll_parameters (s1 s2 : Site.t) : M unit :=
  put (OutStr (" set_ll " ++ nl)) ;;
  assign_type LINE ;;
  let delta := Site.a s1 * Site.b s2 - Site.b s1 * Site.a s2 in
  assert (neqb delta 0) ;;
  store ArrX 0 ((Site.b s1 * Site.c s2 - Site.b s2 * Site.c s1) / delta) ;;
  store ArrX 1 0 ;;
  store ArrX 2 (- (Site.b s2 - Site.b s1)) ;;
  store ArrX 3 0 ;;
  store ArrX 4 0 ;;
  store ArrX 5 0 ;;
  store ArrX 6 0 ;;
  store ArrX 7 0 ;;
  store ArrY 0 ((Site.a s2 * Site.c s1 - Site.a s1 * Site.c s2) / delta) ;;
  store ArrY 1 0 ;;
  store ArrY 2 (- (Site.a s1 - Site.a s2)) ;;
  store ArrY 3 0 ;;
  store ArrY 4 0 ;;
  store ArrY 5 0 ;;
  store ArrY 6 0 ;;
  store ArrY 7 0 ;;
  store ArrY 8 0.

Definition set_parameters (s1 s2 : Site.t) : M unit :=
  if Site.isPoint s1 && Site.isPoint s2 then set_pp_parameters s1 s2
  else if Site.isPoint s1 && Site.isLine s2 then set_pl_parameters s1 s2
  else if Site.isPoint s2 && Site.isLine s1 then set_pl_parameters s2 s1
  else if Site.isLine s1 && Site.isLine s2 then set_ll_parameters s2 s1
  else assert false.

(** ** The solver base class *)

Module solvers.
Section Solver.
(** [Solution] is declared elsewhere; the base class only passes vectors of
    it through. *)
Variable Solution : Type.

Record Solver : Set := mkSolver { debug : bool }.

(** [virtual int solve(s1,k1,s2,k2,s3,k3,slns) {return 0;}]: the result and
    the vector behind the reference [slns] after the call. *)
Definition solve (self : Solver)
    (s1 : Site.t) (k1 : float) (s2 : Site.t) (k2 : float)
    (s3 : Site.t) (k3 : float) (slns : list Solution) : Z * list Solution :=
  (0%Z, slns).

(** [virtual int solve(s1,s2,s3,slns) {return 0;}] *)
Definition solve_sites (self : Solver)
    (s1 s2 s3 : Site.t) (slns : list Solution) : Z * list Solution :=
  (0%Z, slns).

Definition set_type (self : Solver) (_ : Z) : Solver := self.

Definition set_debug (self : Solver) (b : bool) : Solver := mkSolver b.
End Solver.
End solvers.

(** ** Vocabulary of the statements *)

(** What a run hands back, and the machine it leaves. *)
Definition result {A : Type} (o : Outcome A) : option A :=
  match o with Returned v _ => Some v | Aborted _ => None end.

Definition final {A : Type} (o : Outcome A) : Machine :=
  match o with Returned _ m => m | Aborted m => m end.

(** The quantity under the square root of one coordinate at offset [t]. *)
Definition discr (v : Coeffs.t) (t : float) : float :=
  sq (Coeffs.c4 v + Coeffs.c5 v * t) - sq (Coeffs.c6 v + Coeffs.c7 v * t).

Definition out_of_domain (e : EdgeProps.t) (t : float) : Prop :=
  (discr (EdgeProps.x e) t <? 0) = true \/ (discr (EdgeProps.y e) t <? 0) = true.

(** [a1*b2 - b1*a2] for two lines, in the order the sites are given. *)
Definition delta (s1 s2 : Site.t) : float :=
  Site.a s1 * Site.b s2 - Site.b s1 * Site.a s2.

(** Signed distance of the point [s1] from the line [s2]. *)
Definition alfa3 (s1 s2 : Site.t) : float :=
  Site.a s2 * Site.x s1 + Site.b s2 * Site.y s1 + Site.c s2.

Definition access_in_bounds (ac : Access) : bool :=
  match ac with Load _ i | Store _ i => Coeffs.in_bounds i end.

Definition sf_is_zero (r : spec_float) : bool :=
  match r with S754_zero _ => true | _ => false end.

(** Two doubles that [==] cannot tell apart and that are not NaN on one side
    only: the same double, or two zeros whatever their signs. *)
Definition same_double (u v : float) : Prop :=
  u = v \/ ((u =? 0) = true /\ (v =? 0) = true).

Definition sf_sim (u v : spec_float) : Prop :=
  u = v \/ (sf_is_zero u = true /\ sf_is_zero v = true).

(** A point one of whose coordinates is not a number. *)
Definition has_nan (p : Point) : bool := is_nan (px p) || is_nan (py p).

(** The warning of [point]. *)
Definition sqrt_warning : Token := OutStr (" warning bisector sqrt(-1) !" ++ nl).

(** Sites and machines used as concrete inputs. *)
Definition origin : Site.t := Site.mk true false 0 0 0 0 0.
Definition line_x1 : Site.t := Site.mk false true 0 0 1 0 (-1).
Definition line_x0 : Site.t := Site.mk false true 0 0 1 0 0.
Definition line_y0 : Site.t := Site.mk false true 0 0 0 1 0.
Definition arc0 : Site.t := Site.mk false false 0 0 0 0 0.

Definition zeros : Coeffs.t := Coeffs.mk 0 0 0 0 0 0 0 0.
Definition edge0 : EdgeProps.t := EdgeProps.mk 0%N 0%N 0%N 1 SEPARATOR zeros zeros.
Definition start : Machine := mkMachine edge0 [] [].

(** The edge between [origin] and [line_x1] once parameterized. *)
Definition parabola_edge : EdgeProps.t :=
  EdgeProps.mk 0%N 0%N 0%N 1 PARABOLA
    (Coeffs.mk 0 (-1) (-1) 0 0 1 (-1) (-1))
    (Coeffs.mk 0 (-0) (-0) 1 0 1 (-1) (-1)).

(** ** Faces *)

(** Status of faces in the voronoi diagram. *)
Inductive VoronoiFaceStatus : Set := INCIDENT | NONINCIDENT.

(** [struct FaceProps]; [site] stands for the generator the [Site*] points
    to. *)
Module FaceProps.
Record t : Set := mk {
  idx : HEFace;
  edge : HEEdge;
  site : Site.t;
  status : VoronoiFaceStatus
}.

(** [FaceProps()] and [FaceProps(e, s, st)]: the members not named keep what
    the storage [raw] held. *)
Definition init (raw : t) : t := raw.
Definition init_edge_site_status
    (raw : t) (e : HEEdge) (s : Site.t) (st : VoronoiFaceStatus) : t :=
  mk (idx raw) e s st.

(** [operator<], the order used for sorting faces. *)
Definition lt (f g : t) : bool := (idx f <? idx g)%N.
End FaceProps.

(** ** Vocabulary of the further statements *)

(** The eight slots in subscript order. *)
Definition slots (v : Coeffs.t) : list float :=
  [Coeffs.c0 v; Coeffs.c1 v; Coeffs.c2 v; Coeffs.c3 v;
   Coeffs.c4 v; Coeffs.c5 v; Coeffs.c6 v; Coeffs.c7 v].

(** What [print_params] writes for one array after its heading. *)
Definition row (v : Coeffs.t) : list Token :=
  flat_map (fun d => [OutDouble d; OutStr " "]) (slots v).

(** Whether both discriminants of [e] at [t] pass the test of [point]. *)
Definition in_domain (e : EdgeProps.t) (t : float) : bool :=
  geb (discr (EdgeProps.x e) t) 0 && geb (discr (EdgeProps.y e) t) 0.

(** One coordinate of the curve, as [point] evaluates it. *)
Definition coord (v : Coeffs.t) (t : float) : float :=
  Coeffs.c0 v - Coeffs.c1 v - Coeffs.c2 v * t + Coeffs.c3 v * sqrt (discr v t).

(** The edge a call of [set_parameters] leaves, returned or not. *)
Definition edge_after (s1 s2 : Site.t) (m : Machine) : EdgeProps.t :=
  edge (final (set_parameters s1 s2 m)).

(** The subscripts one evaluation of a discriminant pair, respectively of the
    two coordinates, applies. *)
Definition discr_loads : list Access :=
  map (Load ArrX) [4; 5; 6; 7]%Z ++ map (Load ArrY) [4; 5; 6; 7]%Z.
Definition coord_loads : list Access :=
  map (Load ArrX) [0; 1; 2; 3; 4; 5; 6; 7]%Z
  ++ map (Load ArrY) [0; 1; 2; 3; 4; 5; 6; 7]%Z.
Definition all_stores : list Access :=
  map (Store ArrX) [0; 1; 2; 3; 4; 5; 6; 7]%Z
  ++ map (Store ArrY) [0; 1; 2; 3; 4; 5; 6; 7]%Z.

(** The coefficients the point-line derivation stores for the point [p] and
    the line [l], and those the line-line derivation stores for [(s1, s2)]. *)
Definition pl_x (p l : Site.t) : Coeffs.t :=
  Coeffs.mk (Site.x p) (Site.a l * alfa3 p l) (- Site.a l) (Site.b l)
            0 1 (alfa3 p l) (-1).
Definition pl_y (p l : Site.t) : Coeffs.t :=
  Coeffs.mk (Site.y p) (Site.b l * alfa3 p l) (- Site.b l) (Site.a l)
            0 1 (alfa3 p l) (-1).
Definition ll_x (s1 s2 : Site.t) : Coeffs.t :=
  Coeffs.mk ((Site.b s1 * Site.c s2 - Site.b s2 * Site.c s1) / delta s1 s2)
            0 (- (Site.b s2 - Site.b s1)) 0 0 0 0 0.
Definition ll_y (s1 s2 : Site.t) : Coeffs.t :=
  Coeffs.mk ((Site.a s2 * Site.c s1 - Site.a s1 * Site.c s2) / delta s1 s2)
            0 (- (Site.a s1 - Site.a s2)) 0 0 0 0 0.

(** An edge with its type tag and coefficients replaced, the links and [k]
    kept. *)
Definition reparameterized
    (e : EdgeProps.t) (ty : VoronoiEdgeType) (vx vy : Coeffs.t) : EdgeProps.t :=
  EdgeProps.mk (EdgeProps.next e) (EdgeProps.twin e) (EdgeProps.face e)
               (EdgeProps.k e) ty vx vy.

(** What [print_params] writes for an edge. *)
Definition params_output (e : EdgeProps.t) : list Token :=
  [OutStr "x-params: "] ++ row (EdgeProps.x e) ++ [OutStr nl]
  ++ [OutStr "y-params: "] ++ row (EdgeProps.y e) ++ [OutStr nl].

(** The machines the three derivations leave. *)
Definition after_pp (m : Machine) : Machine :=
  mkMachine (EdgeProps.with_type (edge m) LINE)
            (cout m ++ [OutStr (" set_pp " ++ nl)]) (accesses m).
Definition after_pl (p l : Site.t) (m : Machine) : Machine :=
  mkMachine (reparameterized (edge m) PARABOLA (pl_x p l) (pl_y p l))
    (cout m ++ [OutStr (" set_pl " ++ nl)]
            ++ params_output (reparameterized (edge m) PARABOLA (pl_x p l) (pl_y p l)))
    (accesses m ++ all_stores ++ coord_loads).
Definition after_ll (s1 s2 : Site.t) (m : Machine) : Machine :=
  mkMachine (reparameterized (edge m) LINE (ll_x s1 s2) (ll_y s1 s2))
    (cout m ++ [OutStr (" set_ll " ++ nl)])
    (accesses m ++ all_stores ++ [Store ArrY 8]).
Definition at_ll_assert (m : Machine) : Machine :=
  mkMachine (EdgeProps.with_type (edge m) LINE)
            (cout m ++ [OutStr (" set_ll " ++ nl)]) (accesses m).

(** ** Facts about binary64 *)

Module Float64.

Lemma Prim2SF_zero : Prim2SF 0 = S754_zero false.
Proof. reflexivity. Qed.

Lemma SFeqb_zero (r : spec_float) : SFeqb r (S754_zero false) = sf_is_zero r.
Proof. destruct r as [s|s| |s m e]; try destruct s; reflexivity. Qed.

Lemma eqb_zero (d : float) : (d =? 0) = sf_is_zero (Prim2SF d).
Proof. rewrite FloatAxioms.eqb_spec, Prim2SF_zero. apply SFeqb_zero. Qed.

(** A double below zero is not at least zero. *)
Lemma ltb_zero_geb (d : float) : (d <? 0) = true -> geb d 0 = false.
Proof.
  unfold geb. rewrite FloatAxioms.ltb_spec, FloatAxioms.leb_spec, Prim2SF_zero.
  destruct (Prim2SF d) as [s|s| |s m e]; try destruct s; cbv; congruence.
Qed.

Lemma SFmul_comm (u v : spec_float) : SF64mul u v = SF64mul v u.
Proof.
  unfold SF64mul, SFmul.
  destruct u as [s|s| |s m e], v as [s'|s'| |s' m' e']; try reflexivity;
    rewrite (xorb_comm s s'); try reflexivity.
  now rewrite Pos.mul_comm, Z.add_comm.
Qed.

Lemma mul_comm (u v : float) : u * v = v * u.
Proof. apply Prim2SF_inj. rewrite !mul_spec. apply SFmul_comm. Qed.

Lemma round_aux_zero_sign (s s' : bool) (m e : Z) (l : location) :
  sf_is_zero (binary_round_aux prec emax s m e l)
  = sf_is_zero (binary_round_aux prec emax s' m e l).
Proof.
  unfold binary_round_aux.
  destruct (shr_fexp prec emax m e l) as [mrs' e'].
  destruct (shr_fexp prec emax _ e' loc_Exact) as [mrs'' e''].
  destruct (shr_m mrs''); try reflexivity.
  destruct (Z.leb e'' _); reflexivity.
Qed.

Lemma normalize_zero_opp (m e : Z) :
  sf_is_zero (binary_normalize prec emax (Z.opp m) e false)
  = sf_is_zero (binary_normalize prec emax m e false).
Proof.
  destruct m as [|p|p]; simpl; try reflexivity;
    unfold binary_round;
    destruct (shl_align p e _) as [mz ez]; apply round_aux_zero_sign.
Qed.

Lemma SFsub_zero_sym (u v : spec_float) :
  sf_is_zero (SF64sub u v) = sf_is_zero (SF64sub v u).
Proof.
  unfold SF64sub, SFsub.
  destruct u as [s|s| |s m e], v as [s'|s'| |s' m' e'];
    try destruct s; try destruct s'; try reflexivity;
    cbv zeta; rewrite (Z.min_comm e' e);
    match goal with
    | |- context [binary_normalize _ _ (Z.sub ?A ?B) _ _] =>
        replace (Z.sub A B) with (Z.opp (Z.sub B A)) by (unfold cond_Zopp; lia)
    end; apply normalize_zero_opp.
Qed.

(** [p - q == 0] exactly when [q - p == 0]. *)
Lemma sub_eqb_zero_sym (p q : float) : (p - q =? 0) = (q - p =? 0).
Proof. rewrite !eqb_zero, !sub_spec. apply SFsub_zero_sym. Qed.

Lemma round_aux_opp (s : bool) (m e : Z) (l : location) :
  binary_round_aux prec emax (negb s) m e l
  = SFopp (binary_round_aux prec emax s m e l).
Proof.
  unfold binary_round_aux.
  destruct (shr_fexp prec emax m e l) as [mrs' e'].
  destruct (shr_fexp prec emax _ e' loc_Exact) as [mrs'' e''].
  destruct (shr_m mrs''); try reflexivity.
  destruct (Z.leb e'' _); reflexivity.
Qed.

Lemma normalize_opp (m e : Z) :
  sf_sim (binary_normalize prec emax (Z.opp m) e false)
         (SFopp (binary_normalize prec emax m e false)).
Proof.
  destruct m as [|p|p]; simpl.
  - right. split; reflexivity.
  - left. unfold binary_round. destruct (shl_align p e _) as [mz ez].
    apply (round_aux_opp false).
  - left. unfold binary_round. destruct (shl_align p e _) as [mz ez].
    rewrite (round_aux_opp false).
    now destruct (binary_round_aux prec emax false (Zpos mz) ez loc_Exact) as [[]|[]| |[]].
Qed.

(** Exchanging the operands of a subtraction negates the difference, up to
    the sign of a zero. *)
Lemma SFsub_antisym (u v : spec_float) :
  sf_sim (SF64sub v u) (SFopp (SF64sub u v)).
Proof.
  unfold SF64sub, SFsub.
  destruct u as [s|s| |s m e], v as [s'|s'| |s' m' e'];
    try destruct s; try destruct s';
    try (left; reflexivity); try (right; split; reflexivity);
    cbv zeta; rewrite (Z.min_comm e' e);
    match goal with
    | |- context [SFopp (binary_normalize _ _ (Z.sub ?A ?B) _ _)] =>
        replace (Z.sub B A) with (Z.opp (Z.sub A B)) by (unfold cond_Zopp; lia)
    end; apply normalize_opp.
Qed.

Lemma SFdiv_opp_opp (n d : spec_float) :
  SF64div (SFopp n) (SFopp d) = SF64div n d.
Proof.
  destruct n as [s|s| |s m e], d as [s'|s'| |s' m' e'];
    try destruct s; try destruct s'; reflexivity.
Qed.

Lemma SFdiv_zeros (n n' d : spec_float) :
  sf_is_zero n = true -> sf_is_zero n' = true -> sf_is_zero d = false ->
  sf_sim (SF64div n' (SFopp d)) (SF64div n d).
Proof.
  destruct n as [s|s| |s m e]; try discriminate.
  destruct n' as [s0|s0| |s0 m0 e0]; try discriminate.
  destruct d as [s'|s'| |s' m' e']; try discriminate; intros _ _ _;
    try (left; reflexivity); right; split; reflexivity.
Qed.

Lemma sf_is_zero_opp (d : spec_float) : sf_is_zero (SFopp d) = sf_is_zero d.
Proof. now destruct d. Qed.

Lemma SFdiv_sim (n n' d d' : spec_float) :
  sf_sim n' (SFopp n) -> sf_sim d' (SFopp d) -> sf_is_zero d = false ->
  sf_sim (SF64div n' d') (SF64div n d).
Proof.
  intros Hn Hd Hz.
  destruct Hd as [-> | [_ Hd]];
    [| rewrite sf_is_zero_opp in Hd; congruence].
  destruct Hn as [-> | [Hn' Hn]].
  - left. apply SFdiv_opp_opp.
  - rewrite sf_is_zero_opp in Hn. now apply SFdiv_zeros.
Qed.

Lemma same_double_of_sim (u v : float) :
  sf_sim (Prim2SF u) (Prim2SF v) -> same_double u v.
Proof.
  intros [H | [Hu Hv]]; [left; now apply Prim2SF_inj |].
  right. now rewrite !eqb_zero.
Qed.

(** With numerator and denominator both taken in the exchanged order, a
    quotient of two differences is the same double. *)
Lemma div_sub_swapped (p q r s : float) :
  (r - s =? 0) = false ->
  same_double ((q - p) / (s - r)) ((p - q) / (r - s)).
Proof.
  intros H. rewrite eqb_zero, sub_spec in H.
  apply same_double_of_sim. rewrite !div_spec, !sub_spec.
  apply SFdiv_sim; [apply SFsub_antisym | apply SFsub_antisym | exact H].
Qed.

End Float64.

(** ** Running the member functions *)

Ltac open_machine m :=
  let e := fresh "e" in
  let xs := fresh "xs" in
  let ys := fresh "ys" in
  destruct m as [e ? ?]; destruct e as [? ? ? ? ? xs ys]; destruct xs, ys.

Lemma forallb_snoc {A : Type} (f : A -> bool) (l : list A) (a : A) :
  forallb f (l ++ [a]) = forallb f l && f a.
Proof. rewrite forallb_app. simpl. now rewrite andb_true_r. Qed.

Section Dispatch.
Variables s1 s2 : Site.t.

Lemma dispatch_pp :
  Site.isPoint s1 = true -> Site.isPoint s2 = true ->
  set_parameters s1 s2 = set_pp_parameters s1 s2.
Proof. unfold set_parameters. now intros -> ->. Qed.

Lemma dispatch_pl :
  Site.isPoint s1 = true -> Site.isLineSite s2 = true ->
  set_parameters s1 s2 = set_pl_parameters s1 s2.
Proof.
  unfold set_parameters, Site.isLineSite. intros -> H.
  apply andb_true_iff in H as [-> H]. apply negb_true_iff in H as ->.
  reflexivity.
Qed.

Lemma dispatch_lp :
  Site.isLineSite s1 = true -> Site.isPoint s2 = true ->
  set_parameters s1 s2 = set_pl_parameters s2 s1.
Proof.
  unfold set_parameters, Site.isLineSite. intros H ->.
  apply andb_true_iff in H as [-> H]. apply negb_true_iff in H as ->.
  reflexivity.
Qed.

Lemma dispatch_ll :
  Site.isLineSite s1 = true -> Site.isLineSite s2 = true ->
  set_parameters s1 s2 = set_ll_parameters s2 s1.
Proof.
  unfold set_parameters, Site.isLineSite. intros H1 H2.
  apply andb_true_iff in H1 as [-> H1]. apply negb_true_iff in H1 as ->.
  apply andb_true_iff in H2 as [-> H2]. apply negb_true_iff in H2 as ->.
  reflexivity.
Qed.

Lemma dispatch_arc :
  Site.isArc s1 = true \/ Site.isArc s2 = true ->
  set_parameters s1 s2 = assert false.
Proof.
  unfold set_parameters, Site.isArc.
  intros [H | H]; apply andb_true_iff in H as [Hp Hl];
    apply negb_true_iff in Hp, Hl; rewrite Hp, Hl;
    rewrite ?andb_false_r; simpl; rewrite ?andb_false_r; reflexivity.
Qed.
End Dispatch.

(** ** Dispatch of [set_parameters] *)

(** C7: [set_parameters] is decided by the classification predicates of its
    two arguments alone.  Two points go to the point-point derivation; a point
    and a line, in either order, go to the point-line derivation with the
    point first; two lines go to the line-line derivation; and as soon as one
    argument is an arc the run is ended by the assertion, with the edge, the
    output and the accesses as they were. *)
Theorem set_parameters_dispatch (s1 s2 : Site.t) (m : Machine) :
  (Site.isPointSite s1 = true -> Site.isPointSite s2 = true ->
     set_parameters s1 s2 m = set_pp_parameters s1 s2 m)
  /\ (Site.isPointSite s1 = true -> Site.isLineSite s2 = true ->
     set_parameters s1 s2 m = set_pl_parameters s1 s2 m)
  /\ (Site.isLineSite s1 = true -> Site.isPointSite s2 = true ->
     set_parameters s1 s2 m = set_pl_parameters s2 s1 m)
  /\ (Site.isLineSite s1 = true -> Site.isLineSite s2 = true ->
     set_parameters s1 s2 m = set_ll_parameters s2 s1 m)
  /\ (Site.isArc s1 = true \/ Site.isArc s2 = true ->
     set_parameters s1 s2 m = Aborted m).
Proof.
  unfold Site.isPointSite.
  repeat split.
  - intros H1 H2. apply andb_true_iff in H1 as [H1 _], H2 as [H2 _].
    now rewrite dispatch_pp.
  - intros H1 H2. apply andb_true_iff in H1 as [H1 _].
    now rewrite dispatch_pl.
  - intros H1 H2. apply andb_true_iff in H2 as [H2 _].
    now rewrite dispatch_lp.
  - intros H1 H2. now rewrite dispatch_ll.
  - intros H. now rewrite dispatch_arc.
Qed.

Lemma set_parameters_dispatch_witness :
  set_parameters origin origin start = set_pp_parameters origin origin start
  /\ set_parameters origin line_x1 start = set_pl_parameters origin line_x1 start
  /\ set_parameters line_x1 origin start = set_pl_parameters origin line_x1 start
  /\ set_parameters line_x0 line_y0 start = set_ll_parameters line_y0 line_x0 start
  /\ set_parameters arc0 line_x1 start = Aborted start
  /\ set_parameters origin arc0 start = Aborted start.
Proof.
  refine (conj _ (conj _ (conj _ (conj _ (conj _ _))))).
  - apply (set_parameters_dispatch origin origin start); reflexivity.
  - apply (set_parameters_dispatch origin line_x1 start); reflexivity.
  - apply (set_parameters_dispatch line_x1 origin start); reflexivity.
  - apply (set_parameters_dispatch line_x0 line_y0 start); reflexivity.
  - apply (set_parameters_dispatch arc0 line_x1 start); left; reflexivity.
  - apply (set_parameters_dispatch origin arc0 start); right; reflexivity.
Defined.

(** ** The point-point case *)

(** C10: for two point sites [set_parameters] runs the point-point
    derivation, which prints its name and sets the type tag to [LINE]; no
    slot of [x] or [y] is read or written, so all sixteen keep the value they
    had. *)
Theorem set_parameters_pp_frame (s1 s2 : Site.t) (m : Machine) :
  Site.isPoint s1 = true -> Site.isPoint s2 = true ->
  set_parameters s1 s2 m
    = Returned tt (mkMachine (EdgeProps.with_type (edge m) LINE)
                             (cout m ++ [OutStr (" set_pp " ++ nl)])
                             (accesses m))
  /\ EdgeProps.x (EdgeProps.with_type (edge m) LINE) = EdgeProps.x (edge m)
  /\ EdgeProps.y (EdgeProps.with_type (edge m) LINE) = EdgeProps.y (edge m)
  /\ EdgeProps.type (EdgeProps.with_type (edge m) LINE) = LINE.
Proof.
  intros H1 H2. rewrite (dispatch_pp _ _ H1 H2). repeat split.
Qed.

Lemma set_parameters_pp_frame_witness :
  set_parameters origin origin start
    = Returned tt (mkMachine (EdgeProps.with_type edge0 LINE)
                             [OutStr (" set_pp " ++ nl)] [])
  /\ EdgeProps.x (EdgeProps.with_type edge0 LINE) = zeros
  /\ EdgeProps.y (EdgeProps.with_type edge0 LINE) = zeros
  /\ EdgeProps.type (EdgeProps.with_type edge0 LINE) = LINE.
Proof.
  exact (set_parameters_pp_frame origin origin start eq_refl eq_refl).
Defined.

(** ** The point-line case *)

Lemma set_pl_parameters_run (s1 s2 : Site.t) (m : Machine) :
  exists m',
    set_pl_parameters s1 s2 m = Returned tt m'
    /\ EdgeProps.type (edge m') = PARABOLA
    /\ EdgeProps.x (edge m')
       = Coeffs.mk (Site.x s1) (Site.a s2 * alfa3 s1 s2) (- Site.a s2) (Site.b s2)
                   0 1 (alfa3 s1 s2) (-1)
    /\ EdgeProps.y (edge m')
       = Coeffs.mk (Site.y s1) (Site.b s2 * alfa3 s1 s2) (- Site.b s2) (Site.a s2)
                   0 1 (alfa3 s1 s2) (-1).
Proof.
  open_machine m. eexists. split; [lazy - [app]; reflexivity | repeat split].
Qed.

(** C6: for a point site [p] and a line site [l], [set_parameters] does the
    same in either argument order: the edge gets type [PARABOLA] and, with
    [alfa3 = a2*x1 + b2*y1 + c2], the coefficients
    [x = (x1, a2*alfa3, -a2, b2, 0, 1, alfa3, -1)] and
    [y = (y1, b2*alfa3, -b2, a2, 0, 1, alfa3, -1)]. *)
Theorem set_parameters_point_line (p l : Site.t) (m : Machine) :
  Site.isPointSite p = true -> Site.isLineSite l = true ->
  set_parameters l p m = set_parameters p l m
  /\ exists m',
    set_parameters p l m = Returned tt m'
    /\ EdgeProps.type (edge m') = PARABOLA
    /\ EdgeProps.x (edge m')
       = Coeffs.mk (Site.x p) (Site.a l * alfa3 p l) (- Site.a l) (Site.b l)
                   0 1 (alfa3 p l) (-1)
    /\ EdgeProps.y (edge m')
       = Coeffs.mk (Site.y p) (Site.b l * alfa3 p l) (- Site.b l) (Site.a l)
                   0 1 (alfa3 p l) (-1).
Proof.
  intros Hp Hl.
  assert (Hp' : Site.isPoint p = true)
    by (apply andb_true_iff in Hp; tauto).
  rewrite (dispatch_pl _ _ Hp' Hl), (dispatch_lp _ _ Hl Hp').
  split; [reflexivity | apply set_pl_parameters_run].
Qed.

Lemma set_parameters_point_line_witness :
  set_parameters line_x1 origin start = set_parameters origin line_x1 start
  /\ exists m',
    set_parameters origin line_x1 start = Returned tt m'
    /\ EdgeProps.type (edge m') = PARABOLA
    /\ EdgeProps.x (edge m')
       = Coeffs.mk (Site.x origin) (Site.a line_x1 * alfa3 origin line_x1)
                   (- Site.a line_x1) (Site.b line_x1)
                   0 1 (alfa3 origin line_x1) (-1)
    /\ EdgeProps.y (edge m')
       = Coeffs.mk (Site.y origin) (Site.b line_x1 * alfa3 origin line_x1)
                   (- Site.b line_x1) (Site.a line_x1)
                   0 1 (alfa3 origin line_x1) (-1).
Proof.
  exact (set_parameters_point_line origin line_x1 start eq_refl eq_refl).
Defined.

(** ** The line-line case *)

(** The denominator the line-line derivation computes when [set_parameters]
    is given [(s1, s2)] vanishes exactly when [delta s1 s2] does. *)
Lemma delta_swap_eqb (s1 s2 : Site.t) : (delta s2 s1 =? 0) = (delta s1 s2 =? 0).
Proof.
  unfold delta.
  rewrite (Float64.mul_comm (Site.a s2) (Site.b s1)).
  rewrite (Float64.mul_comm (Site.b s2) (Site.a s1)).
  apply Float64.sub_eqb_zero_sym.
Qed.

Lemma set_ll_parameters_parallel (s1 s2 : Site.t) (m : Machine) :
  (delta s1 s2 =? 0) = true ->
  set_ll_parameters s1 s2 m
    = Aborted (mkMachine (EdgeProps.with_type (edge m) LINE)
                         (cout m ++ [OutStr (" set_ll " ++ nl)])
                         (accesses m)).
Proof.
  intros H. unfold set_ll_parameters, bind, put, assign_type, assert, neqb.
  fold (delta s1 s2). now rewrite H.
Qed.

Lemma set_ll_parameters_run (s1 s2 : Site.t) (m : Machine) :
  (delta s1 s2 =? 0) = false ->
  exists m',
    set_ll_parameters s1 s2 m = Returned tt m'
    /\ EdgeProps.type (edge m') = LINE
    /\ EdgeProps.x (edge m')
       = Coeffs.mk ((Site.b s1 * Site.c s2 - Site.b s2 * Site.c s1) / delta s1 s2)
                   0 (- (Site.b s2 - Site.b s1)) 0 0 0 0 0
    /\ EdgeProps.y (edge m')
       = Coeffs.mk ((Site.a s2 * Site.c s1 - Site.a s1 * Site.c s2) / delta s1 s2)
                   0 (- (Site.a s1 - Site.a s2)) 0 0 0 0 0
    /\ accesses m'
       = accesses m
         ++ map (Store ArrX) [0; 1; 2; 3; 4; 5; 6; 7]%Z
         ++ map (Store ArrY) [0; 1; 2; 3; 4; 5; 6; 7; 8]%Z.
Proof.
  intros H. open_machine m. eexists. split.
  - unfold set_ll_parameters, bind, put, assign_type, assert, neqb.
    fold (delta s1 s2). rewrite H. lazy - [delta app]. reflexivity.
  - repeat split. simpl. now rewrite <- !app_assoc.
Qed.

(** C2: for two line sites with [a1*b2 - b1*a2 == 0] the run of
    [set_parameters] is ended by the assertion on the denominator.  At that
    point the derivation has printed its name and set the type tag; no
    coefficient has been computed or stored, so no quotient by the vanishing
    denominator exists anywhere in the edge. *)
Theorem set_parameters_parallel (s1 s2 : Site.t) (m : Machine) :
  Site.isLineSite s1 = true -> Site.isLineSite s2 = true ->
  (delta s1 s2 =? 0) = true ->
  set_parameters s1 s2 m
    = Aborted (mkMachine (EdgeProps.with_type (edge m) LINE)
                         (cout m ++ [OutStr (" set_ll " ++ nl)])
                         (accesses m))
  /\ EdgeProps.x (EdgeProps.with_type (edge m) LINE) = EdgeProps.x (edge m)
  /\ EdgeProps.y (EdgeProps.with_type (edge m) LINE) = EdgeProps.y (edge m).
Proof.
  intros H1 H2 Hd. rewrite (dispatch_ll _ _ H1 H2).
  rewrite set_ll_parameters_parallel by now rewrite delta_swap_eqb.
  repeat split.
Qed.

Lemma set_parameters_parallel_witness :
  set_parameters line_x0 line_x1 start
    = Aborted (mkMachine (EdgeProps.with_type edge0 LINE)
                         [OutStr (" set_ll " ++ nl)] [])
  /\ EdgeProps.x (EdgeProps.with_type edge0 LINE) = zeros
  /\ EdgeProps.y (EdgeProps.with_type edge0 LINE) = zeros.
Proof.
  exact (set_parameters_parallel line_x0 line_x1 start eq_refl eq_refl eq_refl).
Defined.

(** In the order of the caller, the quotients of the line-line derivation
    run on [(s2, s1)] are those of the formulas written for [(s1, s2)]. *)
Lemma ll_quotients_caller_order (s1 s2 : Site.t) :
  (delta s1 s2 =? 0) = false ->
  same_double ((Site.b s2 * Site.c s1 - Site.b s1 * Site.c s2) / delta s2 s1)
              ((Site.b s1 * Site.c s2 - Site.b s2 * Site.c s1) / delta s1 s2)
  /\ same_double ((Site.a s1 * Site.c s2 - Site.a s2 * Site.c s1) / delta s2 s1)
                 ((Site.a s2 * Site.c s1 - Site.a s1 * Site.c s2) / delta s1 s2).
Proof.
  intros H. unfold delta in *.
  rewrite (Float64.mul_comm (Site.a s2) (Site.b s1)).
  rewrite (Float64.mul_comm (Site.b s2) (Site.a s1)).
  split; now apply Float64.div_sub_swapped.
Qed.

(** C5, as the code has it: [set_parameters] hands two line sites to the
    line-line derivation in exchanged order.  For non-parallel line sites the
    edge gets type [LINE] and the coefficients of the derivation with the
    roles of the two sites exchanged:
    [x0 = (b2*c1 - b1*c2) / (a2*b1 - b2*a1)], [x2 = -(b1 - b2)],
    [y0 = (a1*c2 - a2*c1) / (a2*b1 - b2*a1)], [y2 = -(a2 - a1)],
    and zero in slots 1 and 3 to 7 of both arrays.  Up to the sign of a zero,
    [x0] is [(b1*c2 - b2*c1) / delta] and [y0] is [(a2*c1 - a1*c2) / delta]
    with [delta = a1*b2 - b1*a2]. *)
Theorem set_parameters_line_line (s1 s2 : Site.t) (m : Machine) :
  Site.isLineSite s1 = true -> Site.isLineSite s2 = true ->
  (delta s1 s2 =? 0) = false ->
  exists m',
    set_parameters s1 s2 m = Returned tt m'
    /\ EdgeProps.type (edge m') = LINE
    /\ EdgeProps.x (edge m')
       = Coeffs.mk ((Site.b s2 * Site.c s1 - Site.b s1 * Site.c s2) / delta s2 s1)
                   0 (- (Site.b s1 - Site.b s2)) 0 0 0 0 0
    /\ EdgeProps.y (edge m')
       = Coeffs.mk ((Site.a s1 * Site.c s2 - Site.a s2 * Site.c s1) / delta s2 s1)
                   0 (- (Site.a s2 - Site.a s1)) 0 0 0 0 0
    /\ same_double (Coeffs.c0 (EdgeProps.x (edge m')))
         ((Site.b s1 * Site.c s2 - Site.b s2 * Site.c s1) / delta s1 s2)
    /\ same_double (Coeffs.c0 (EdgeProps.y (edge m')))
         ((Site.a s2 * Site.c s1 - Site.a s1 * Site.c s2) / delta s1 s2).
Proof.
  intros H1 H2 Hd. rewrite (dispatch_ll _ _ H1 H2).
  destruct (set_ll_parameters_run s2 s1 m) as (m' & Hrun & Hty & Hx & Hy & _).
  - now rewrite delta_swap_eqb.
  - exists m'. repeat (split; [assumption |]).
    rewrite Hx, Hy. cbn [Coeffs.c0]. now apply ll_quotients_caller_order.
Qed.

Lemma set_parameters_line_line_witness :
  exists m',
    set_parameters line_x0 line_y0 start = Returned tt m'
    /\ EdgeProps.type (edge m') = LINE
    /\ EdgeProps.x (edge m')
       = Coeffs.mk ((Site.b line_y0 * Site.c line_x0 - Site.b line_x0 * Site.c line_y0)
                      / delta line_y0 line_x0)
                   0 (- (Site.b line_x0 - Site.b line_y0)) 0 0 0 0 0
    /\ EdgeProps.y (edge m')
       = Coeffs.mk ((Site.a line_x0 * Site.c line_y0 - Site.a line_y0 * Site.c line_x0)
                      / delta line_y0 line_x0)
                   0 (- (Site.a line_y0 - Site.a line_x0)) 0 0 0 0 0
    /\ same_double (Coeffs.c0 (EdgeProps.x (edge m')))
         ((Site.b line_x0 * Site.c line_y0 - Site.b line_y0 * Site.c line_x0)
            / delta line_x0 line_y0)
    /\ same_double (Coeffs.c0 (EdgeProps.y (edge m')))
         ((Site.a line_y0 * Site.c line_x0 - Site.a line_x0 * Site.c line_y0)
            / delta line_x0 line_y0).
Proof.
  exact (set_parameters_line_line line_x0 line_y0 start eq_refl eq_refl eq_refl).
Defined.

(** C5 as stated fails: for the lines [x = 0] and [y = 0], which are not
    parallel, [set_parameters] stores [x2 = 1] where [-(b2 - b1)] is [-1]. *)
Lemma set_parameters_line_line_x2_counterexample :
  Site.isLineSite line_x0 = true /\ Site.isLineSite line_y0 = true
  /\ (delta line_x0 line_y0 =? 0) = false
  /\ exists m',
       set_parameters line_x0 line_y0 start = Returned tt m'
       /\ Coeffs.c2 (EdgeProps.x (edge m')) = 1
       /\ - (Site.b line_y0 - Site.b line_x0) = -1
       /\ (Coeffs.c2 (EdgeProps.x (edge m')) =? - (Site.b line_y0 - Site.b line_x0)) = false.
Proof.
  repeat (split; [reflexivity |]).
  eexists. split; [vm_compute; reflexivity | repeat split].
Qed.

(** ** Evaluation of the curve *)

Lemma point_fallback (t : float) (m : Machine) :
  geb (discr (EdgeProps.x (edge m)) t) 0 && geb (discr (EdgeProps.y (edge m)) t) 0 = false ->
  point t m
    = Returned (mkPoint 0 0)
        (mkMachine (edge m) (cout m ++ [sqrt_warning])
           (accesses m ++ map (Load ArrX) [4; 5; 6; 7]%Z
                       ++ map (Load ArrY) [4; 5; 6; 7]%Z)).
Proof.
  open_machine m. unfold discr. cbn [edge EdgeProps.x EdgeProps.y
    Coeffs.c4 Coeffs.c5 Coeffs.c6 Coeffs.c7]. intros H.
  unfold point, bind, load. cbn - [geb sq app String.append].
  rewrite H. unfold put, ret, sqrt_warning. cbn - [app String.append].
  now rewrite <- !app_assoc.
Qed.

Lemma point_value (t : float) (m : Machine) :
  geb (discr (EdgeProps.x (edge m)) t) 0 && geb (discr (EdgeProps.y (edge m)) t) 0 = true ->
  let cx := EdgeProps.x (edge m) in
  let cy := EdgeProps.y (edge m) in
  result (point t m)
    = Some (mkPoint
        (Coeffs.c0 cx - Coeffs.c1 cx - Coeffs.c2 cx * t + Coeffs.c3 cx * sqrt (discr cx t))
        (Coeffs.c0 cy - Coeffs.c1 cy - Coeffs.c2 cy * t + Coeffs.c3 cy * sqrt (discr cy t)))
  /\ edge (final (point t m)) = edge m
  /\ cout (final (point t m)) = cout m.
Proof.
  open_machine m. unfold discr. cbn [edge EdgeProps.x EdgeProps.y
    Coeffs.c0 Coeffs.c1 Coeffs.c2 Coeffs.c3 Coeffs.c4 Coeffs.c5 Coeffs.c6 Coeffs.c7].
  intros H.
  unfold point, bind, load. cbn - [geb sq app].
  rewrite H. cbn - [sq app]. repeat split.
Qed.

(** C1, as the code has it: when either discriminant is below zero, [point]
    reads the eight slots the discriminants need, writes its warning to the
    output and returns the point [(0,0)] to its caller, leaving the edge as
    it was.  No square root of a negative discriminant is taken, and the
    point returned has no NaN coordinate. *)
Theorem point_out_of_domain (t : float) (m : Machine) :
  out_of_domain (edge m) t ->
  point t m
    = Returned (mkPoint 0 0)
        (mkMachine (edge m) (cout m ++ [sqrt_warning])
           (accesses m ++ map (Load ArrX) [4; 5; 6; 7]%Z
                       ++ map (Load ArrY) [4; 5; 6; 7]%Z))
  /\ has_nan (mkPoint 0 0) = false.
Proof.
  intros H. split; [| reflexivity]. apply point_fallback.
  destruct H as [H | H]; apply Float64.ltb_zero_geb in H; rewrite H;
    [reflexivity | apply andb_false_r].
Qed.

Lemma point_out_of_domain_witness :
  point 0 (mkMachine parabola_edge [] [])
    = Returned (mkPoint 0 0)
        (mkMachine parabola_edge [sqrt_warning]
           (map (Load ArrX) [4; 5; 6; 7]%Z ++ map (Load ArrY) [4; 5; 6; 7]%Z))
  /\ has_nan (mkPoint 0 0) = false.
Proof.
  exact (point_out_of_domain 0 (mkMachine parabola_edge [] []) (or_introl eq_refl)).
Defined.

(** C1 as stated fails: on the parabola edge of [origin] and [line_x1] the
    x discriminant at [t = 0] is [-1], and [point 0] returns, to a caller
    that gets no error, the point [(0,0)]. *)
Lemma point_reports_no_error_counterexample :
  out_of_domain parabola_edge 0
  /\ discr (EdgeProps.x parabola_edge) 0 = -1
  /\ result (point 0 (mkMachine parabola_edge [] [])) = Some (mkPoint 0 0).
Proof.
  split; [left; reflexivity | split; reflexivity].
Qed.

(** C4, as the code has it: for the point site [(0,0)] and the line site
    [x = 1], [alfa3] is [-1] and the edge gets the coefficients of
    [parabola_edge]; at [t = 0] the x discriminant is negative, so [point 0]
    returns [(0,0)]; the point [(0.5, 0)] midway between the site and its
    foot on the line is what [point (-0.5)] returns. *)
Theorem parabola_midpoint (m : Machine) :
  alfa3 origin line_x1 = -1
  /\ exists m',
       set_parameters origin line_x1 m = Returned tt m'
       /\ EdgeProps.type (edge m') = PARABOLA
       /\ EdgeProps.x (edge m') = EdgeProps.x parabola_edge
       /\ EdgeProps.y (edge m') = EdgeProps.y parabola_edge
       /\ out_of_domain (edge m') 0
       /\ result (point 0 m') = Some (mkPoint 0 0)
       /\ result (point (-0.5) m') = Some (mkPoint 0.5 0).
Proof.
  split; [reflexivity |].
  destruct (set_pl_parameters_run origin line_x1 m) as (m' & Hrun & Hty & Hx & Hy).
  exists m'. rewrite (dispatch_pl origin line_x1 eq_refl eq_refl).
  assert (Hx' : EdgeProps.x (edge m') = EdgeProps.x parabola_edge)
    by (rewrite Hx; reflexivity).
  assert (Hy' : EdgeProps.y (edge m') = EdgeProps.y parabola_edge)
    by (rewrite Hy; reflexivity).
  assert (Hout : out_of_domain (edge m') 0)
    by (left; rewrite Hx'; reflexivity).
  repeat (split; [assumption |]). split.
  - rewrite point_fallback; [reflexivity |]. rewrite Hx'. reflexivity.
  - destruct (point_value (-0.5) m') as (Hv & _).
    + rewrite Hx', Hy'. reflexivity.
    + rewrite Hv, Hx', Hy'. reflexivity.
Qed.

(** C4 as stated fails: after [set_parameters origin line_x1], [point 0]
    returns [(0,0)], whose x coordinate is not [0.5]. *)
Lemma parabola_point_zero_counterexample :
  result (bind (set_parameters origin line_x1) (fun _ => point 0) start)
    = Some (mkPoint 0 0)
  /\ (px (mkPoint 0 0) =? 0.5) = false.
Proof. split; reflexivity. Qed.

(** ** Subscripts of the coefficient arrays *)

(** [point], [print_params], the point-point and the point-line derivation
    apply only subscripts within [0..7]. *)
Lemma point_in_bounds (t : float) (m : Machine) :
  forallb access_in_bounds (accesses m) = true ->
  forallb access_in_bounds (accesses (final (point t m))) = true.
Proof.
  intros H. open_machine m. cbn [accesses] in H.
  unfold point, bind, load. cbn - [geb sq app].
  destruct (geb _ 0 && geb _ 0); cbn - [sq app];
    rewrite !forallb_snoc, H; reflexivity.
Qed.

Lemma print_params_in_bounds (m : Machine) :
  forallb access_in_bounds (accesses m) = true ->
  forallb access_in_bounds (accesses (final (print_params m))) = true.
Proof.
  intros H. open_machine m. cbn [accesses] in H.
  lazy - [app forallb access_in_bounds].
  rewrite !forallb_snoc, H. reflexivity.
Qed.

Lemma set_pp_parameters_in_bounds (s1 s2 : Site.t) (m : Machine) :
  forallb access_in_bounds (accesses m) = true ->
  forallb access_in_bounds (accesses (final (set_pp_parameters s1 s2 m))) = true.
Proof. intros H. exact H. Qed.

Lemma set_pl_parameters_in_bounds (s1 s2 : Site.t) (m : Machine) :
  forallb access_in_bounds (accesses m) = true ->
  forallb access_in_bounds (accesses (final (set_pl_parameters s1 s2 m))) = true.
Proof.
  intros H. open_machine m. cbn [accesses] in H.
  lazy - [app forallb access_in_bounds].
  rewrite !forallb_snoc, H. reflexivity.
Qed.

(** The line-line derivation, once past its assertion, ends with a store at
    subscript 8 of [y]. *)
Lemma set_ll_parameters_past_end (s1 s2 : Site.t) (m : Machine) :
  (delta s1 s2 =? 0) = false ->
  forallb access_in_bounds (accesses (final (set_ll_parameters s1 s2 m))) = false.
Proof.
  intros H.
  destruct (set_ll_parameters_run s1 s2 m H) as (m' & -> & _ & _ & _ & Hacc).
  cbn [final]. rewrite Hacc, !forallb_app. cbn. apply andb_false_r.
Qed.

(** C3 fails on the code: for the lines [x = 0] and [y = 0],
    [set_parameters] returns after the line-line derivation has stored at
    [y[8]], a subscript outside [0..7]. *)
Theorem set_ll_parameters_stores_y8 :
  exists m',
    set_parameters line_x0 line_y0 start = Returned tt m'
    /\ accesses m'
       = map (Store ArrX) [0; 1; 2; 3; 4; 5; 6; 7]%Z
         ++ map (Store ArrY) [0; 1; 2; 3; 4; 5; 6; 7; 8]%Z
    /\ access_in_bounds (Store ArrY 8) = false
    /\ forallb access_in_bounds (accesses m') = false.
Proof.
  eexists. split; [vm_compute; reflexivity | repeat split].
Qed.

(** ** Defaults of the solver base class *)

(** C8: both [solve] overloads of the base class return 0 and leave the
    solution vector as it was. *)
Theorem solver_default_solve (Solution : Type) (self : solvers.Solver)
    (s1 : Site.t) (k1 : float) (s2 : Site.t) (k2 : float)
    (s3 : Site.t) (k3 : float) (slns : list Solution) :
  solvers.solve Solution self s1 k1 s2 k2 s3 k3 slns = (0%Z, slns)
  /\ solvers.solve_sites Solution self s1 s2 s3 slns = (0%Z, slns)
  /\ List.length (snd (solvers.solve Solution self s1 k1 s2 k2 s3 k3 slns)) = List.length slns
  /\ List.length (snd (solvers.solve_sites Solution self s1 s2 s3 slns)) = List.length slns.
Proof. repeat split. Qed.

(** * Further properties of the code *)

(** ** Squares and discriminants *)

Module Float64More.

Lemma round_aux_not_negative (m e : Z) (l : location) :
  SFltb (binary_round_aux prec emax false m e l) (S754_zero false) = false.
Proof.
  unfold binary_round_aux.
  destruct (shr_fexp prec emax m e l) as [mrs' e'].
  destruct (shr_fexp prec emax _ e' loc_Exact) as [mrs'' e''].
  destruct (shr_m mrs''); try reflexivity.
  destruct (Z.leb e'' _); reflexivity.
Qed.

Lemma SFmul_self_not_negative (u : spec_float) :
  SFltb (SF64mul u u) (S754_zero false) = false.
Proof.
  destruct u as [s|s| |s m e]; try reflexivity; destruct s; try reflexivity;
    apply round_aux_not_negative.
Qed.

Lemma Prim2SF_nan : Prim2SF nan = S754_nan.
Proof. reflexivity. Qed.

Lemma Prim2SF_infinity : Prim2SF infinity = S754_infinity false.
Proof. reflexivity. Qed.

(** A finite double is a zero or has a mantissa. *)
Lemma is_finite_SF (t : float) :
  is_finite t
  = match Prim2SF t with S754_zero _ | S754_finite _ _ _ => true | _ => false end.
Proof.
  unfold is_finite, is_nan, is_infinity.
  rewrite !FloatAxioms.eqb_spec, abs_spec, Prim2SF_infinity.
  destruct (Prim2SF t) as [s|s| |s m e]; try destruct s; try reflexivity.
  - cbn. unfold SFeqb, SFcompare. rewrite Z.compare_refl, Pos.compare_cont_refl.
    reflexivity.
  - cbn. unfold SFeqb, SFcompare. rewrite Z.compare_refl, Pos.compare_cont_refl.
    reflexivity.
Qed.

(** [0 + 0*t] is [+0] for a finite [t] and NaN otherwise. *)
Lemma zero_plus_zero_mul (t : float) :
  0 + 0 * t = if is_finite t then 0 else nan.
Proof.
  apply Prim2SF_inj. rewrite add_spec, mul_spec, is_finite_SF.
  change (Prim2SF 0) with (S754_zero false).
  destruct (Prim2SF t) as [s|s| |s m e]; try destruct s; reflexivity.
Qed.

End Float64More.

(** ** Evaluating any edge *)

(** [point] in one equation: value, output and subscripts, by the outcome
    of the test on the two discriminants. *)
Lemma point_spec (t : float) (m : Machine) :
  point t m
  = Returned
      (if in_domain (edge m) t
       then mkPoint (coord (EdgeProps.x (edge m)) t) (coord (EdgeProps.y (edge m)) t)
       else mkPoint 0 0)
      (mkMachine (edge m)
         (cout m ++ if in_domain (edge m) t then [] else [sqrt_warning])
         (accesses m ++ discr_loads ++ if in_domain (edge m) t then coord_loads else [])).
Proof.
  destruct (in_domain (edge m) t) eqn:H.
  - open_machine m. unfold in_domain, discr in H.
    cbn [edge EdgeProps.x EdgeProps.y
         Coeffs.c4 Coeffs.c5 Coeffs.c6 Coeffs.c7] in H.
    unfold point, bind, load. cbn - [geb sq app].
    rewrite H. cbv - [sq app]. rewrite app_nil_r, <- !app_assoc.
    cbn [app]. reflexivity.
  - rewrite (point_fallback t m H), app_nil_r. reflexivity.
Qed.

Ltac norm_logs := rewrite <- ?app_assoc; cbn [app].

(** ** What each derivation leaves behind *)

Lemma print_params_spec (m : Machine) :
  print_params m
  = Returned tt (mkMachine (edge m) (cout m ++ params_output (edge m))
                           (accesses m ++ coord_loads)).
Proof.
  open_machine m. lazy - [app]. norm_logs. reflexivity.
Qed.

Lemma set_pp_parameters_final (s1 s2 : Site.t) (m : Machine) :
  set_pp_parameters s1 s2 m
  = Returned tt (mkMachine (EdgeProps.with_type (edge m) LINE)
                           (cout m ++ [OutStr (" set_pp " ++ nl)])
                           (accesses m)).
Proof. reflexivity. Qed.

Lemma set_pl_parameters_final (s1 s2 : Site.t) (m : Machine) :
  set_pl_parameters s1 s2 m
  = Returned tt
      (mkMachine (reparameterized (edge m) PARABOLA (pl_x s1 s2) (pl_y s1 s2))
         (cout m ++ [OutStr (" set_pl " ++ nl)]
                 ++ params_output (reparameterized (edge m) PARABOLA
                                     (pl_x s1 s2) (pl_y s1 s2)))
         (accesses m ++ all_stores ++ coord_loads)).
Proof.
  open_machine m. lazy - [app]. norm_logs. reflexivity.
Qed.

Lemma set_ll_parameters_final (s1 s2 : Site.t) (m : Machine) :
  (delta s1 s2 =? 0) = false ->
  set_ll_parameters s1 s2 m
  = Returned tt
      (mkMachine (reparameterized (edge m) LINE (ll_x s1 s2) (ll_y s1 s2))
         (cout m ++ [OutStr (" set_ll " ++ nl)])
         (accesses m ++ all_stores ++ [Store ArrY 8])).
Proof.
  intros H. open_machine m.
  unfold set_ll_parameters, bind, put, assign_type, assert, neqb.
  fold (delta s1 s2). rewrite H. lazy - [delta app]. norm_logs. reflexivity.
Qed.

(** [set_parameters] in one equation. *)
Lemma set_parameters_cases (s1 s2 : Site.t) (m : Machine) :
  set_parameters s1 s2 m
  = if Site.isPoint s1 && Site.isPoint s2 then Returned tt (after_pp m)
    else if Site.isPoint s1 && Site.isLine s2 then Returned tt (after_pl s1 s2 m)
    else if Site.isPoint s2 && Site.isLine s1 then Returned tt (after_pl s2 s1 m)
    else if Site.isLine s1 && Site.isLine s2 then
      if delta s1 s2 =? 0 then Aborted (at_ll_assert m)
      else Returned tt (after_ll s2 s1 m)
    else Aborted m.
Proof.
  unfold set_parameters.
  destruct (Site.isPoint s1 && Site.isPoint s2);
    [apply set_pp_parameters_final |].
  destruct (Site.isPoint s1 && Site.isLine s2);
    [apply set_pl_parameters_final |].
  destruct (Site.isPoint s2 && Site.isLine s1);
    [apply set_pl_parameters_final |].
  destruct (Site.isLine s1 && Site.isLine s2); [| reflexivity].
  rewrite <- (delta_swap_eqb s1 s2).
  destruct (delta s2 s1 =? 0) eqn:H.
  - now apply set_ll_parameters_parallel.
  - now apply set_ll_parameters_final.
Qed.

Ltac by_cases s1 s2 :=
  rewrite ?set_parameters_cases;
  destruct (Site.isPoint s1), (Site.isLine s1), (Site.isPoint s2), (Site.isLine s2);
  cbn [andb]; try destruct (delta s1 s2 =? 0).

(** X1: whatever its two arguments, [set_parameters] leaves the links
    [next], [twin], [face] and the offset direction [k] of the edge as they
    were, whether it returns or is ended by an assertion. *)
Theorem set_parameters_keeps_links (s1 s2 : Site.t) (m : Machine) :
  EdgeProps.next (edge_after s1 s2 m) = EdgeProps.next (edge m)
  /\ EdgeProps.twin (edge_after s1 s2 m) = EdgeProps.twin (edge m)
  /\ EdgeProps.face (edge_after s1 s2 m) = EdgeProps.face (edge m)
  /\ EdgeProps.k (edge_after s1 s2 m) = EdgeProps.k (edge m).
Proof.
  unfold edge_after. by_cases s1 s2; repeat split.
Qed.

(** X2: parameterizing an edge twice with the same two sites leaves the
    edge that parameterizing it once leaves. *)
Theorem set_parameters_idempotent (s1 s2 : Site.t) (m : Machine) :
  edge_after s1 s2 (final (set_parameters s1 s2 m)) = edge_after s1 s2 m.
Proof.
  unfold edge_after. by_cases s1 s2; reflexivity.
Qed.

(** X3: the subscripts [set_parameters] applies stay within [0..7] on every
    path but one: two line sites whose denominator is not zero, where the
    line-line derivation runs to its end. *)
Theorem set_parameters_bounds (s1 s2 : Site.t) (m : Machine) :
  forallb access_in_bounds (accesses (final (set_parameters s1 s2 m)))
  = forallb access_in_bounds (accesses m)
    && negb (Site.isLineSite s1 && Site.isLineSite s2 && neqb (delta s1 s2) 0).
Proof.
  unfold Site.isLineSite, neqb.
  by_cases s1 s2; cbn [final accesses after_pp after_pl after_ll at_ll_assert negb andb];
    rewrite ?forallb_app, ?andb_true_r, ?andb_false_r; reflexivity.
Qed.

(** X4: [point] only reads.  It always returns, leaves the edge as it was,
    applies subscripts within [0..7] only, and writes either nothing (both
    discriminants passed the test) or exactly its warning, in which case the
    point returned is [(0,0)]. *)
Theorem point_is_read_only (t : float) (m : Machine) :
  exists p m' l,
    point t m = Returned p m'
    /\ edge m' = edge m
    /\ accesses m' = accesses m ++ l
    /\ forallb access_in_bounds l = true
    /\ ((in_domain (edge m) t = true /\ cout m' = cout m)
        \/ (in_domain (edge m) t = false
            /\ cout m' = cout m ++ [sqrt_warning] /\ p = mkPoint 0 0)).
Proof.
  rewrite point_spec. destruct (in_domain (edge m) t);
    do 3 eexists; (split; [reflexivity |]); cbn [edge accesses cout];
    (split; [reflexivity |]); (split; [reflexivity |]);
    (split; [reflexivity |]).
  - left. now rewrite app_nil_r.
  - right. auto.
Qed.

(** X5: [print_params] writes the heading of [x], the eight slots of [x] in
    subscript order, each followed by a blank, and a newline, then the same
    for [y]; it reads each slot once, at subscripts [0..7], and leaves the
    edge as it was. *)
Theorem print_params_output (m : Machine) :
  print_params m
  = Returned tt
      (mkMachine (edge m)
         (cout m ++ [OutStr "x-params: "] ++ row (EdgeProps.x (edge m)) ++ [OutStr nl]
                 ++ [OutStr "y-params: "] ++ row (EdgeProps.y (edge m)) ++ [OutStr nl])
         (accesses m ++ map (Load ArrX) [0; 1; 2; 3; 4; 5; 6; 7]%Z
                     ++ map (Load ArrY) [0; 1; 2; 3; 4; 5; 6; 7]%Z))
  /\ List.length (row (EdgeProps.x (edge m))) = 16%nat
  /\ List.length (row (EdgeProps.y (edge m))) = 16%nat.
Proof.
  split; [| split; reflexivity].
  rewrite print_params_spec. reflexivity.
Qed.

(** X6: a square is never below zero: [sq v < 0] is false for every double,
    NaN and the infinities included. *)
Theorem sq_never_negative (v : float) : (sq v <? 0) = false.
Proof.
  unfold sq. rewrite FloatAxioms.ltb_spec, mul_spec.
  apply Float64More.SFmul_self_not_negative.
Qed.

(** ** Parameterizing, then evaluating *)

Lemma discr_line (c0 c1 c2 c3 : float) (t : float) :
  discr (Coeffs.mk c0 c1 c2 c3 0 0 0 0) t = if is_finite t then 0 else nan.
Proof.
  unfold discr. cbn [Coeffs.c4 Coeffs.c5 Coeffs.c6 Coeffs.c7].
  rewrite Float64More.zero_plus_zero_mul. now destruct (is_finite t).
Qed.

Lemma in_domain_line (e : EdgeProps.t) (s1 s2 : Site.t) (t : float) :
  in_domain (reparameterized e LINE (ll_x s1 s2) (ll_y s1 s2)) t = is_finite t.
Proof.
  unfold in_domain, reparameterized, ll_x, ll_y.
  cbn [EdgeProps.x EdgeProps.y]. rewrite !discr_line.
  now destruct (is_finite t).
Qed.

(** X7: on the edge of two non-parallel line sites, [point t] is in the
    domain exactly for the finite [t]: there it writes no warning and
    returns [(x0 - 0 - x2*t + 0, y0 - 0 - y2*t + 0)]; for an infinite or NaN
    [t] both discriminants are NaN and it falls back to [(0,0)] with the
    warning. *)
Theorem line_line_point (s1 s2 : Site.t) (t : float) (m : Machine) :
  Site.isLineSite s1 = true -> Site.isLineSite s2 = true ->
  (delta s1 s2 =? 0) = false ->
  let run := bind (set_parameters s1 s2) (fun _ => point t) m in
  let vx := ll_x s2 s1 in
  let vy := ll_y s2 s1 in
  result run
  = Some (if is_finite t
          then mkPoint (Coeffs.c0 vx - 0 - Coeffs.c2 vx * t + 0)
                       (Coeffs.c0 vy - 0 - Coeffs.c2 vy * t + 0)
          else mkPoint 0 0)
  /\ cout (final run)
     = cout m ++ [OutStr (" set_ll " ++ nl)]
              ++ (if is_finite t then [] else [sqrt_warning]).
Proof.
  intros H1 H2 Hd run vx vy. subst run vx vy. unfold bind.
  rewrite (dispatch_ll _ _ H1 H2), set_ll_parameters_final
    by now rewrite delta_swap_eqb.
  rewrite point_spec. cbn [result final cout edge after_ll].
  rewrite in_domain_line. unfold coord, ll_x, ll_y.
  cbn [EdgeProps.x EdgeProps.y reparameterized
       Coeffs.c0 Coeffs.c1 Coeffs.c2 Coeffs.c3].
  rewrite !discr_line.
  destruct (is_finite t); split; try reflexivity; now rewrite <- app_assoc.
Qed.

Lemma line_line_point_witness :
  let run := bind (set_parameters line_x0 line_y0) (fun _ => point 1) start in
  let vx := ll_x line_y0 line_x0 in
  let vy := ll_y line_y0 line_x0 in
  result run
  = Some (if is_finite 1
          then mkPoint (Coeffs.c0 vx - 0 - Coeffs.c2 vx * 1 + 0)
                       (Coeffs.c0 vy - 0 - Coeffs.c2 vy * 1 + 0)
          else mkPoint 0 0)
  /\ cout (final run)
     = cout start ++ [OutStr (" set_ll " ++ nl)]
                  ++ (if is_finite 1 then [] else [sqrt_warning]).
Proof.
  exact (line_line_point line_x0 line_y0 1 start eq_refl eq_refl eq_refl).
Defined.

Lemma sf_sim_sym (u v : spec_float) : sf_sim u v -> sf_sim v u.
Proof. intros [-> | [Hu Hv]]; [now left | now right]. Qed.

Lemma same_double_sym (u v : float) : same_double u v -> same_double v u.
Proof. intros [-> | [Hu Hv]]; [now left | now right]. Qed.

(** Exchanging the operands of a subtraction negates the difference, up to
    the sign of a zero. *)
Lemma sub_swapped (p q : float) : same_double (q - p) (- (p - q)).
Proof.
  apply Float64.same_double_of_sim. rewrite opp_spec, !sub_spec.
  apply Float64.SFsub_antisym.
Qed.

Lemma opp_same_double (u v : float) : same_double u v -> same_double (- u) (- v).
Proof.
  intros [-> | [Hu Hv]]; [now left |]. right.
  rewrite !Float64.eqb_zero, !opp_spec, !Float64.sf_is_zero_opp.
  now rewrite <- !Float64.eqb_zero.
Qed.

(** X8: for two non-parallel line sites, giving them to [set_parameters] in
    the other order leaves a line through the same base point with the
    direction reversed: [x0] and [y0] are the same doubles and [x2], [y2] are
    negated, all up to the sign of a zero; the type is [LINE] both ways. *)
Theorem line_line_exchange (s1 s2 : Site.t) (m : Machine) :
  Site.isLineSite s1 = true -> Site.isLineSite s2 = true ->
  (delta s1 s2 =? 0) = false ->
  let e := edge_after s1 s2 m in
  let e' := edge_after s2 s1 m in
  EdgeProps.type e = LINE /\ EdgeProps.type e' = LINE
  /\ same_double (Coeffs.c0 (EdgeProps.x e')) (Coeffs.c0 (EdgeProps.x e))
  /\ same_double (Coeffs.c0 (EdgeProps.y e')) (Coeffs.c0 (EdgeProps.y e))
  /\ same_double (Coeffs.c2 (EdgeProps.x e')) (- Coeffs.c2 (EdgeProps.x e))
  /\ same_double (Coeffs.c2 (EdgeProps.y e')) (- Coeffs.c2 (EdgeProps.y e)).
Proof.
  intros H1 H2 Hd e e'. subst e e'. unfold edge_after.
  rewrite (dispatch_ll _ _ H1 H2), (dispatch_ll _ _ H2 H1).
  rewrite (set_ll_parameters_final s2 s1 m) by now rewrite delta_swap_eqb.
  rewrite (set_ll_parameters_final s1 s2 m Hd).
  cbn [final edge reparameterized EdgeProps.type EdgeProps.x EdgeProps.y
       ll_x ll_y Coeffs.c0 Coeffs.c2].
  destruct (ll_quotients_caller_order s1 s2 Hd) as [Hx Hy].
  repeat split.
  - now apply same_double_sym.
  - now apply same_double_sym.
  - apply opp_same_double, sub_swapped.
  - apply opp_same_double, sub_swapped.
Qed.

Lemma line_line_exchange_witness :
  let e := edge_after line_x0 line_y0 start in
  let e' := edge_after line_y0 line_x0 start in
  EdgeProps.type e = LINE /\ EdgeProps.type e' = LINE
  /\ same_double (Coeffs.c0 (EdgeProps.x e')) (Coeffs.c0 (EdgeProps.x e))
  /\ same_double (Coeffs.c0 (EdgeProps.y e')) (Coeffs.c0 (EdgeProps.y e))
  /\ same_double (Coeffs.c2 (EdgeProps.x e')) (- Coeffs.c2 (EdgeProps.x e))
  /\ same_double (Coeffs.c2 (EdgeProps.y e')) (- Coeffs.c2 (EdgeProps.y e)).
Proof.
  exact (line_line_exchange line_x0 line_y0 start eq_refl eq_refl eq_refl).
Defined.

(** X9: parameterizing the edge of two point sites changes nothing in what
    [point] returns: the curve evaluated afterwards is the one of the
    coefficients the edge held before. *)
Theorem point_after_point_point (s1 s2 : Site.t) (t : float) (m : Machine) :
  Site.isPoint s1 = true -> Site.isPoint s2 = true ->
  result (bind (set_parameters s1 s2) (fun _ => point t) m) = result (point t m).
Proof.
  intros H1 H2. unfold bind. rewrite (dispatch_pp _ _ H1 H2).
  rewrite set_pp_parameters_final, (point_spec t m), point_spec.
  reflexivity.
Qed.

Lemma point_after_point_point_witness :
  result (bind (set_parameters origin origin) (fun _ => point 1)
            (mkMachine parabola_edge [] []))
  = result (point 1 (mkMachine parabola_edge [] [])).
Proof.
  exact (point_after_point_point origin origin 1
           (mkMachine parabola_edge [] []) eq_refl eq_refl).
Defined.

(** X10: on the edge of a point site [p] and a line site [l], given in
    either order, one discriminant [D = sq (0 + 1*t) - sq (alfa3 + (-1)*t)]
    decides for both coordinates: when [D >= 0], [point t] returns
    [(x1 - a2*alfa3 - (-a2)*t + b2*sqrt D, y1 - b2*alfa3 - (-b2)*t + a2*sqrt D)],
    otherwise [(0,0)]. *)
Theorem point_line_point (p l : Site.t) (t : float) (m : Machine) :
  Site.isPointSite p = true -> Site.isLineSite l = true ->
  let D := sq (0 + 1 * t) - sq (alfa3 p l + (-1) * t) in
  let value :=
    if geb D 0
    then mkPoint
           (Site.x p - Site.a l * alfa3 p l - (- Site.a l) * t + Site.b l * sqrt D)
           (Site.y p - Site.b l * alfa3 p l - (- Site.b l) * t + Site.a l * sqrt D)
    else mkPoint 0 0 in
  result (bind (set_parameters p l) (fun _ => point t) m) = Some value
  /\ result (bind (set_parameters l p) (fun _ => point t) m) = Some value.
Proof.
  intros Hp Hl D value.
  assert (Hp' : Site.isPoint p = true)
    by (apply andb_true_iff in Hp; tauto).
  unfold bind. rewrite (dispatch_pl _ _ Hp' Hl), (dispatch_lp _ _ Hl Hp').
  rewrite set_pl_parameters_final, point_spec.
  cbn [result edge after_pl]. unfold in_domain, coord, discr.
  cbn [reparameterized EdgeProps.x EdgeProps.y pl_x pl_y
       Coeffs.c0 Coeffs.c1 Coeffs.c2 Coeffs.c3 Coeffs.c4 Coeffs.c5 Coeffs.c6 Coeffs.c7].
  fold D. rewrite andb_diag. split; reflexivity.
Qed.

Lemma point_line_point_witness :
  let D := sq (0 + 1 * (-0.5)) - sq (alfa3 origin line_x1 + (-1) * (-0.5)) in
  let value :=
    if geb D 0
    then mkPoint
           (Site.x origin - Site.a line_x1 * alfa3 origin line_x1
              - (- Site.a line_x1) * (-0.5) + Site.b line_x1 * sqrt D)
           (Site.y origin - Site.b line_x1 * alfa3 origin line_x1
              - (- Site.b line_x1) * (-0.5) + Site.a line_x1 * sqrt D)
    else mkPoint 0 0 in
  result (bind (set_parameters origin line_x1) (fun _ => point (-0.5)) start)
    = Some value
  /\ result (bind (set_parameters line_x1 origin) (fun _ => point (-0.5)) start)
    = Some value.
Proof.
  exact (point_line_point origin line_x1 (-0.5) start eq_refl eq_refl).
Defined.

(** ** Construction, then parameterization *)

(** X11: an edge built with [EdgeProps(n, t, f)] and parameterized for a
    point and a line site (in either order) or for two non-parallel line
    sites has its links as constructed and a type tag and sixteen
    coefficients that do not depend on what the storage held before; only
    [k] is still what the storage held. *)
Theorem parameterization_overwrites_storage
    (s1 s2 : Site.t) (raw raw' : EdgeProps.t) (n tw : HEEdge) (f : HEFace)
    (out out' : list Token) (acc acc' : list Access) :
  (Site.isPointSite s1 = true /\ Site.isLineSite s2 = true)
  \/ (Site.isLineSite s1 = true /\ Site.isPointSite s2 = true)
  \/ (Site.isLineSite s1 = true /\ Site.isLineSite s2 = true
      /\ (delta s1 s2 =? 0) = false) ->
  let e := edge_after s1 s2
             (mkMachine (EdgeProps.init_next_twin_face raw n tw f) out acc) in
  let e' := edge_after s1 s2
              (mkMachine (EdgeProps.init_next_twin_face raw' n tw f) out' acc') in
  EdgeProps.type e = EdgeProps.type e'
  /\ EdgeProps.x e = EdgeProps.x e'
  /\ EdgeProps.y e = EdgeProps.y e'
  /\ EdgeProps.next e = n /\ EdgeProps.twin e = tw /\ EdgeProps.face e = f
  /\ EdgeProps.k e = EdgeProps.k raw.
Proof.
  intros H e e'. subst e e'. unfold edge_after.
  rewrite !set_parameters_cases.
  unfold Site.isPointSite, Site.isLineSite in H.
  destruct (Site.isPoint s1), (Site.isLine s1), (Site.isPoint s2), (Site.isLine s2);
    cbn [andb negb] in *;
    destruct H as [[? ?] | [[? ?] | [? [? Hd]]]]; try discriminate;
    try rewrite Hd; repeat split.
Qed.

Lemma parameterization_overwrites_storage_witness :
  let e := edge_after line_x0 line_y0
             (mkMachine (EdgeProps.init_next_twin_face edge0 1%N 2%N 3%N) [] []) in
  let e' := edge_after line_x0 line_y0
              (mkMachine (EdgeProps.init_next_twin_face parabola_edge 1%N 2%N 3%N)
                         [sqrt_warning] [Load ArrX 0]) in
  EdgeProps.type e = EdgeProps.type e'
  /\ EdgeProps.x e = EdgeProps.x e'
  /\ EdgeProps.y e = EdgeProps.y e'
  /\ EdgeProps.next e = 1%N /\ EdgeProps.twin e = 2%N /\ EdgeProps.face e = 3%N
  /\ EdgeProps.k e = EdgeProps.k edge0.
Proof.
  exact (parameterization_overwrites_storage line_x0 line_y0 edge0 parabola_edge
           1%N 2%N 3%N [] [sqrt_warning] [] [Load ArrX 0]
           (or_intror (or_intror (conj eq_refl (conj eq_refl eq_refl))))).
Defined.

(** ** Faces *)

(** X12: [operator<] on faces is a strict weak order that looks at [idx]
    alone: it is irreflexive and transitive, two faces are unordered both
    ways exactly when their [idx] agree, and being unordered is transitive.
    The constructor [FaceProps(e, s, st)] does not set [idx], so the place of
    the face it builds is the one of the storage it was built in. *)
Theorem face_order (f g h : FaceProps.t)
    (e : HEEdge) (s : Site.t) (st : VoronoiFaceStatus) :
  FaceProps.lt f f = false
  /\ (FaceProps.lt f g = true -> FaceProps.lt g h = true -> FaceProps.lt f h = true)
  /\ (FaceProps.lt f g = false /\ FaceProps.lt g f = false
      <-> FaceProps.idx f = FaceProps.idx g)
  /\ (FaceProps.idx f = FaceProps.idx g -> FaceProps.idx g = FaceProps.idx h ->
      FaceProps.lt f h = false /\ FaceProps.lt h f = false)
  /\ FaceProps.lt (FaceProps.init_edge_site_status f e s st) g = FaceProps.lt f g
  /\ FaceProps.lt g (FaceProps.init_edge_site_status f e s st) = FaceProps.lt g f.
Proof.
  unfold FaceProps.lt. cbn [FaceProps.idx FaceProps.init_edge_site_status].
  split; [apply N.ltb_irrefl |].
  split; [rewrite !N.ltb_lt; apply N.lt_trans |].
  split; [split |].
  - intros [H1 H2]. apply N.ltb_ge in H1, H2. now apply N.le_antisymm.
  - intros ->. now rewrite N.ltb_irrefl.
  - split; [| split; reflexivity].
    intros -> ->. now rewrite N.ltb_irrefl.
Qed.

(** ** Hooks of the solver base class *)

(** X13: the two hooks of the base class never change what its [solve]
    overloads return: [set_type] leaves the solver as it is, [set_debug]
    sets the flag to its argument (the last call wins), and [solve] returns
    the same after either. *)
Theorem solver_hooks (Solution : Type) (self : solvers.Solver) (b b' : bool) (n : Z)
    (s1 : Site.t) (k1 : float) (s2 : Site.t) (k2 : float)
    (s3 : Site.t) (k3 : float) (slns : list Solution) :
  solvers.set_type self n = self
  /\ solvers.debug (solvers.set_debug self b) = b
  /\ solvers.set_debug (solvers.set_debug self b) b' = solvers.set_debug self b'
  /\ solvers.solve Solution (solvers.set_debug (solvers.set_type self n) b)
       s1 k1 s2 k2 s3 k3 slns
     = solvers.solve Solution self s1 k1 s2 k2 s3 k3 slns
  /\ solvers.solve_sites Solution (solvers.set_debug (solvers.set_type self n) b)
       s1 s2 s3 slns
     = solvers.solve_sites Solution self s1 s2 s3 slns.
Proof. repeat split. Qed.

(** ** What the point-line derivation prints *)

(** X14: for a point site and a line site, in either order, [set_parameters]
    writes the name of the derivation and then the dump of the coefficients
    it has just stored, not of those the edge held before: the sixteen
    doubles written are the slots of [pl_x] and [pl_y] in subscript order. *)
Theorem point_line_dump (p l : Site.t) (m : Machine) :
  Site.isPointSite p = true -> Site.isLineSite l = true ->
  let dump :=
    [OutStr (" set_pl " ++ nl); OutStr "x-params: "] ++ row (pl_x p l)
    ++ [OutStr nl; OutStr "y-params: "] ++ row (pl_y p l) ++ [OutStr nl] in
  cout (final (set_parameters p l m)) = cout m ++ dump
  /\ cout (final (set_parameters l p m)) = cout m ++ dump.
Proof.
  intros Hp Hl dump.
  assert (Hp' : Site.isPoint p = true)
    by (apply andb_true_iff in Hp; tauto).
  rewrite (dispatch_pl _ _ Hp' Hl), (dispatch_lp _ _ Hl Hp').
  rewrite set_pl_parameters_final. cbn [final cout after_pl].
  split; reflexivity.
Qed.

Lemma point_line_dump_witness :
  let dump :=
    [OutStr (" set_pl " ++ nl); OutStr "x-params: "] ++ row (pl_x origin line_x1)
    ++ [OutStr nl; OutStr "y-params: "] ++ row (pl_y origin line_x1) ++ [OutStr nl] in
  cout (final (set_parameters origin line_x1 start)) = cout start ++ dump
  /\ cout (final (set_parameters line_x1 origin start)) = cout start ++ dump.
Proof.
  exact (point_line_dump origin line_x1 start eq_refl eq_refl).
Defined.
